(** * URL shortener: the code store and the mapping service

    A shallow embedding of [internal/types/types.go],
    [internal/persistence/sqlite.go] and [internal/core/core.go].

    The Go code talks to one SQLite table, [urls], through [database/sql].
    The table is modelled as the list of its rows in insertion order, the two
    SQL statements the code issues are modelled as functions on that list,
    and everything the code cannot control (whether the storage layer
    answers, what the random generator draws) is an explicit input of each
    call. *)

From Stdlib Require Import String Ascii List ZArith Lia Bool PeanoNat.
Import ListNotations.
Local Open Scope string_scope.

(* ------------------------------------------------------------------ *)
(** ** Go error values *)

(** The error values that can flow through the three packages.  The first
    two are the sentinels the code compares against; the next three are what
    the SQLite driver can hand back from a statement; [wrapError] is the value
    built by [fmt.Errorf] with a [%w] verb. *)
Inductive error : Type :=
| ErrNotFound                              (* types.ErrNotFound *)
| ErrNoRows                                (* sql.ErrNoRows *)
| ErrConstraintUnique (column : string)    (* sqlite3: UNIQUE constraint failed *)
| ErrFull                                  (* sqlite3: database or disk is full *)
| ErrDriver (msg : string)                 (* any other storage failure *)
| wrapError (msg : string) (err : error).  (* fmt.Errorf("...: %w", err) *)

Fixpoint error_eqb (a b : error) : bool :=
  match a, b with
  | ErrNotFound, ErrNotFound => true
  | ErrNoRows, ErrNoRows => true
  | ErrConstraintUnique c, ErrConstraintUnique d => String.eqb c d
  | ErrFull, ErrFull => true
  | ErrDriver m, ErrDriver n => String.eqb m n
  | wrapError m e, wrapError n f => String.eqb m n && error_eqb e f
  | _, _ => false
  end.

(** The [Error()] method: the message of an error value. *)
Definition Error (e : error) : string :=
  match e with
  | ErrNotFound => "types: record not found"
  | ErrNoRows => "sql: no rows in result set"
  | ErrConstraintUnique column => "UNIQUE constraint failed: " ++ column
  | ErrFull => "database or disk is full"
  | ErrDriver msg => msg
  | wrapError msg _ => msg
  end.

(** [fmt.Errorf(context ++ ": %w", err)]. *)
Definition Errorf (context : string) (err : error) : error :=
  wrapError (context ++ ": " ++ Error err) err.

(** [errors.Unwrap]. *)
Definition Unwrap (e : error) : option error :=
  match e with
  | wrapError _ err => Some err
  | _ => None
  end.

(** [errors.Is(err, target)]: walk the chain of wrapped errors. *)
Fixpoint errors_Is (err target : error) : bool :=
  error_eqb err target ||
  match err with
  | wrapError _ inner => errors_Is inner target
  | _ => false
  end.

(** What a Go function of type [(string, error)] returns; [None] is [nil]. *)
Definition ret : Type := string * option error.

(* ------------------------------------------------------------------ *)
(** ** package types *)

Module types.

(** [type URL struct]: one row of the table. *)
Record URL : Type := mkURL { ID : Z; Original : string; Short : string }.

(** [type URLPersistence interface].  [P] is the state behind the receiver,
    [W] what the outside world contributes to one call. *)
Class URLPersistence (P W : Type) : Type := {
  Save : W -> string -> P -> P * ret;
  Get : W -> string -> P -> P * ret
}.

End types.

(* ------------------------------------------------------------------ *)
(** ** The table [urls] and the statements run against it

    [CREATE TABLE IF NOT EXISTS urls (id INTEGER PRIMARY KEY AUTOINCREMENT,
     original TEXT NOT NULL UNIQUE, short TEXT NOT NULL UNIQUE)] *)

Module sql.
Import types.

Definition table : Type := list URL.

(** The table a fresh database holds after [NewSQLitePersistence]. *)
Definition empty : table := [].

(** A statement either reaches the table or fails in the storage layer with
    the driver's message. *)
Definition fault : Type := option string.

Definition max_rowid : Z := 9223372036854775807.

Definition last_rowid (t : table) : Z := fold_right Z.max 0%Z (map ID t).

(** [QueryRow("SELECT short FROM urls WHERE original = ?", original).Scan(&dest)]
    with [dest] holding the empty string before the call: the first matching
    row is scanned, no row is [sql.ErrNoRows].  The table is not touched. *)
Definition select_short (f : fault) (original : string) (t : table)
  : table * ret :=
  match f with
  | Some msg => (t, ("", Some (ErrDriver msg)))
  | None =>
      match find (fun r => String.eqb (Original r) original) t with
      | Some r => (t, (Short r, None))
      | None => (t, ("", Some ErrNoRows))
      end
  end.

(** [QueryRow("SELECT original FROM urls WHERE short = ?", short).Scan(&dest)]. *)
Definition select_original (f : fault) (short : string) (t : table)
  : table * ret :=
  match f with
  | Some msg => (t, ("", Some (ErrDriver msg)))
  | None =>
      match find (fun r => String.eqb (Short r) short) t with
      | Some r => (t, (Original r, None))
      | None => (t, ("", Some ErrNoRows))
      end
  end.

(** [Exec("INSERT INTO urls (original, short) VALUES (?, ?)", original, short)].
    A failed statement leaves the table as it was; a successful one appends
    one row whose id is one more than the largest id handed out. *)
Definition insert (f : fault) (original short : string) (t : table)
  : table * option error :=
  match f with
  | Some msg => (t, Some (ErrDriver msg))
  | None =>
      if (last_rowid t =? max_rowid)%Z then (t, Some ErrFull)
      else if existsb (fun r => String.eqb (Original r) original) t
      then (t, Some (ErrConstraintUnique "urls.original"))
      else if existsb (fun r => String.eqb (Short r) short) t
      then (t, Some (ErrConstraintUnique "urls.short"))
      else ((t ++ [mkURL (last_rowid t + 1) original short])%list, None)
  end.

End sql.

(* ------------------------------------------------------------------ *)
(** ** package persistence *)

Module persistence.
Import types sql.

Definition base62Chars : string :=
  "0123456789abcdefghijklmnopqrstuvwxyzABCDEFGHIJKLMNOPQRSTUVWXYZ".

Definition shortCodeLength : nat := 6.

(** What the world contributes to one call: the outcome of the storage layer
    for the lookup and for the insert, and the raw numbers the generator
    produces after being seeded from the clock. *)
Record world : Type := mkWorld {
  query_fault : fault;
  exec_fault : fault;
  rand_raw : nat -> nat
}.

(** [rand.Intn(n)] on the generator's next raw number: a number below [n]. *)
Definition Intn (n raw : nat) : nat := raw mod n.

(** [s[i]] for a string [s]. *)
Definition index (s : string) (i : nat) : ascii :=
  match String.get i s with
  | Some c => c
  | None => Ascii.zero
  end.

(** [generateShortCode]: position [i] of the buffer gets the symbol picked
    by the [i]-th draw. *)
Definition generateShortCode (raw : nat -> nat) : string :=
  string_of_list_ascii
    (map (fun i => index base62Chars (Intn (String.length base62Chars) (raw i)))
         (seq 0 shortCodeLength)).

(** [func (p *SQLitePersistence) Save(originalURL string) (string, error)]. *)
Definition Save (w : world) (originalURL : string) (t : table) : table * ret :=
  let '(t1, (shortCode, err)) := select_short (query_fault w) originalURL t in
  match err with
  | None => (t1, (shortCode, None))
  | Some e =>
      if negb (error_eqb e ErrNoRows)
      then (t1, ("", Some (Errorf "persistence: failed to query url" e)))
      else
        let shortCode := generateShortCode (rand_raw w) in
        let '(t2, err) := insert (exec_fault w) originalURL shortCode t1 in
        match err with
        | Some e => (t2, ("", Some (Errorf "persistence: failed to insert url" e)))
        | None => (t2, (shortCode, None))
        end
  end.

(** [func (p *SQLitePersistence) Get(shortCode string) (string, error)]. *)
Definition Get (w : world) (shortCode : string) (t : table) : table * ret :=
  let '(t1, (originalURL, err)) := select_original (query_fault w) shortCode t in
  match err with
  | Some e =>
      if error_eqb e ErrNoRows
      then (t1, ("", Some ErrNotFound))
      else (t1, ("", Some (Errorf "persistence: failed to get url" e)))
  | None => (t1, (originalURL, None))
  end.

(** [SQLitePersistence] implements [types.URLPersistence]. *)
#[export] Instance SQLitePersistence : URLPersistence table world :=
  {| types.Save := Save; types.Get := Get |}.

End persistence.

(* ------------------------------------------------------------------ *)
(** ** package core *)

Module core.
Import types.

Section Core.
Context {P W : Type} `{URLPersistence P W}.

(** [func (c *Core) ShortenURL(originalURL string) (string, error)]. *)
Definition ShortenURL (w : W) (originalURL : string) (p : P) : P * ret :=
  let '(p1, (shortCode, err)) := types.Save w originalURL p in
  match err with
  | Some e => (p1, ("", Some (Errorf "core: failed to shorten url" e)))
  | None => (p1, (shortCode, None))
  end.

(** [func (c *Core) GetURL(shortCode string) (string, error)]. *)
Definition GetURL (w : W) (shortCode : string) (p : P) : P * ret :=
  let '(p1, (originalURL, err)) := types.Get w shortCode p in
  match err with
  | Some e => (p1, ("", Some (Errorf "core: failed to get url" e)))
  | None => (p1, (originalURL, None))
  end.
End Core.

End core.

Import types sql persistence.


(* ------------------------------------------------------------------ *)
(** ** Histories of calls *)

(** The two operations of the code store, each with what the world does
    during the call. *)
Inductive call : Type :=
| Shorten (w : world) (u : string)
| Resolve (w : world) (c : string).

Definition exec (k : call) (t : table) : table * ret :=
  match k with
  | Shorten w u => Save w u t
  | Resolve w c => Get w c t
  end.

(** The table after a history of calls. *)
Fixpoint run (ks : list call) (t : table) : table :=
  match ks with
  | [] => t
  | k :: ks' => run ks' (fst (exec k t))
  end.

(** The codes the successful [Shorten] calls of a history returned. *)
Fixpoint returned (ks : list call) (t : table) : list string :=
  match ks with
  | [] => []
  | k :: ks' =>
      let '(t', (s, err)) := exec k t in
      match k, err with
      | Shorten _ _, None => s :: returned ks' t'
      | _, _ => returned ks' t'
      end
  end.

(** The tables the program can ever hold: those a history of calls builds
    from the table of a fresh database. *)
Definition reachable (t : table) : Prop := exists ks, t = run ks empty.

(* ------------------------------------------------------------------ *)
(** ** Properties of tables and of codes *)

(** Both [UNIQUE] columns hold pairwise different values. *)
Definition unique (t : table) : Prop :=
  NoDup (map Original t) /\ NoDup (map Short t).

(** The rows of a table that map a given original. *)
Definition rows_for (u : string) (t : table) : list URL :=
  filter (fun r => String.eqb (Original r) u) t.

(** A digit, a lowercase letter or an uppercase letter. *)
Definition alphanumeric (a : ascii) : bool :=
  let n := nat_of_ascii a in
  ((48 <=? n) && (n <=? 57) || (97 <=? n) && (n <=? 122) || (65 <=? n) && (n <=? 90))%nat.

(** Six symbols, all alphanumeric. *)
Definition code_shape (c : string) : bool :=
  (String.length c =? 6)%nat && forallb alphanumeric (list_ascii_of_string c).

(** A boolean check that a list of symbols has no repetition. *)
Fixpoint distinct (l : list ascii) : bool :=
  match l with
  | [] => true
  | a :: l' => negb (existsb (Ascii.eqb a) l') && distinct l'
  end.

(** How a caller tells "not found" from the rest. *)
Definition is_not_found (e : error) : bool := errors_Is e ErrNotFound.

(** The duplicate-key error of the storage layer, possibly wrapped. *)
Definition is_duplicate_key (e : error) : bool :=
  errors_Is e (ErrConstraintUnique "urls.original")
  || errors_Is e (ErrConstraintUnique "urls.short").

(** A call to [Save] whose freshly generated code is already the code of a
    stored mapping, with the storage layer answering and room in the table. *)
Definition collides (w : world) (u : string) (t : table) : Prop :=
  query_fault w = None /\ exec_fault w = None /\
  (forall r, In r t -> Original r <> u) /\
  (exists r, In r t /\ Short r = generateShortCode (rand_raw w)) /\
  (last_rowid t < max_rowid)%Z.

(** The retry policy of the specification, read as weakly as its words
    allow: a colliding call does not end in the duplicate-key error. *)
Definition collision_is_retried : Prop :=
  forall w u t, collides w u t ->
    match snd (snd (Save w u t)) with
    | None => True
    | Some e => is_duplicate_key e = false
    end.

(* ------------------------------------------------------------------ *)
(** ** The outcomes of the two operations *)

(** The row a successful insert appends. *)
Definition new_row (original short : string) (t : table) : URL :=
  mkURL (last_rowid t + 1) original short.

(** The four ways a call to [Save] can go: the lookup fails in the storage
    layer, the lookup finds a row, the insert fails, the insert succeeds. *)
Inductive Save_outcome (w : world) (u : string) (t : table) : table * ret -> Prop :=
| Save_query_failed (msg : string) :
    query_fault w = Some msg ->
    Save_outcome w u t
      (t, ("", Some (Errorf "persistence: failed to query url" (ErrDriver msg))))
| Save_reused (r : URL) :
    query_fault w = None ->
    find (fun r => String.eqb (Original r) u) t = Some r ->
    Save_outcome w u t (t, (Short r, None))
| Save_insert_failed (e : error) :
    query_fault w = None ->
    find (fun r => String.eqb (Original r) u) t = None ->
    insert (exec_fault w) u (generateShortCode (rand_raw w)) t = (t, Some e) ->
    Save_outcome w u t
      (t, ("", Some (Errorf "persistence: failed to insert url" e)))
| Save_inserted :
    query_fault w = None ->
    find (fun r => String.eqb (Original r) u) t = None ->
    existsb (fun r => String.eqb (Short r) (generateShortCode (rand_raw w))) t = false ->
    Save_outcome w u t
      ((t ++ [new_row u (generateShortCode (rand_raw w)) t])%list,
       (generateShortCode (rand_raw w), None)).

(** The three ways a call to [Get] can go. *)
Inductive Get_outcome (w : world) (c : string) (t : table) : table * ret -> Prop :=
| Get_query_failed (msg : string) :
    query_fault w = Some msg ->
    Get_outcome w c t
      (t, ("", Some (Errorf "persistence: failed to get url" (ErrDriver msg))))
| Get_found (r : URL) :
    query_fault w = None ->
    find (fun r => String.eqb (Short r) c) t = Some r ->
    Get_outcome w c t (t, (Original r, None))
| Get_not_found :
    query_fault w = None ->
    find (fun r => String.eqb (Short r) c) t = None ->
    Get_outcome w c t (t, ("", Some ErrNotFound)).

(* ------------------------------------------------------------------ *)
(** ** Concrete worlds and tables used in the examples *)

(** The storage layer answers and every draw is [n]. *)
Definition calm (n : nat) : world := mkWorld None None (fun _ => n).

(** The lookup fails in the storage layer. *)
Definition broken_query : world := mkWorld (Some "disk I/O error") None (fun _ => 0).

(** The insert fails in the storage layer. *)
Definition broken_exec : world := mkWorld None (Some "disk I/O error") (fun _ => 0).

Definition url_a : string := "https://example.com/a".
Definition url_b : string := "https://example.com/b".

(** The table after [Shorten url_a] in a calm world drawing zeros. *)
Definition table_a : table := [mkURL 1 url_a "000000"].

(* ------------------------------------------------------------------ *)
(** ** Opening the store *)

(** [func NewSQLitePersistence(dataSourceName string)], which returns a
    pointer to the store and an error.
    [disk] is what the data source holds before the call: the table [urls] of
    an earlier run, or nothing.  [CREATE TABLE IF NOT EXISTS] leaves a table
    that is there as it is and creates an empty one otherwise.  [None] in the
    first component is the [nil] pointer. *)
Definition NewSQLitePersistence (open_fault create_fault : fault) (disk : option table)
  : option table * option error :=
  match open_fault with
  | Some msg =>
      (None, Some (Errorf "persistence: failed to open database" (ErrDriver msg)))
  | None =>
      match create_fault with
      | Some msg =>
          (None, Some (Errorf "persistence: failed to create table" (ErrDriver msg)))
      | None =>
          (Some (match disk with Some t => t | None => empty end), None)
      end
  end.

(* ------------------------------------------------------------------ *)
(** ** package server

    The two handlers.  What [net/http] and [encoding/json] do is kept as the
    calls the handlers make: the decoded request body is an input, and a
    response is the call that writes it. *)

Module server.
Import types.

(** [type shortenRequest struct]. *)
Record shortenRequest : Type := mkShortenRequest { URL : string }.

(** [type shortenResponse struct]. *)
Record shortenResponse : Type := mkShortenResponse { ShortURL : string }.

Definition StatusMovedPermanently : nat := 301.
Definition StatusBadRequest : nat := 400.
Definition StatusInternalServerError : nat := 500.

(** What a handler does with its [http.ResponseWriter]. *)
Inductive response : Type :=
| http_Error (msg : string) (code : nat)       (* http.Error(w, msg, code) *)
| http_NotFound                                (* http.NotFound(w, r) *)
| http_Redirect (url : string) (code : nat)    (* http.Redirect(w, r, url, code) *)
| json_Encode (res : shortenResponse)          (* Content-Type: application/json; Encode(res) *)
| panic.                                       (* slice bounds out of range *)

(** [s[1:]] for a string [s]: the bytes after the first, a run-time panic on
    the empty string. *)
Definition slice_from_1 (s : string) : option string :=
  match s with
  | EmptyString => None
  | String _ rest => Some rest
  end.

Section Server.
Context {P W : Type} `{URLPersistence P W}.

(** [func (s *Server) handleShorten(w, r, _)].  [decoded] is the outcome of
    [json.NewDecoder(r.Body).Decode(&req)]: [None] for an error, the request
    otherwise; [host] is [r.Host]. *)
Definition handleShorten (w : W) (decoded : option shortenRequest) (host : string) (p : P)
  : P * response :=
  match decoded with
  | None => (p, http_Error "Invalid request body" StatusBadRequest)
  | Some req =>
      let '(p1, (shortCode, err)) := core.ShortenURL w (URL req) p in
      match err with
      | Some _ => (p1, http_Error "Internal server error" StatusInternalServerError)
      | None =>
          let baseURL := ("http://" ++ host) ++ "/" in
          (p1, json_Encode (mkShortenResponse (baseURL ++ shortCode)))
      end
  end.

(** [func (s *Server) handleRedirect(w, r)].  [path] is [r.URL.Path]. *)
Definition handleRedirect (w : W) (path : string) (p : P) : P * response :=
  match slice_from_1 path with
  | None => (p, panic)
  | Some shortCode =>
      let '(p1, (originalURL, err)) := core.GetURL w shortCode p in
      match err with
      | Some _ => (p1, http_NotFound)
      | None => (p1, http_Redirect originalURL StatusMovedPermanently)
      end
  end.

End Server.

End server.

(* ------------------------------------------------------------------ *)
(** ** Reading a code back into draws *)

(** The place of a symbol in a list of symbols (the length of the list when
    it is not there). *)
Fixpoint position (a : ascii) (l : list ascii) : nat :=
  match l with
  | [] => 0
  | x :: l' => if Ascii.eqb x a then 0 else S (position a l')
  end.

(** Draws that pick, position by position, the symbols of [c]. *)
Definition draws_for (c : string) (i : nat) : nat :=
  position (nth i (list_ascii_of_string c) Ascii.zero)
           (list_ascii_of_string base62Chars).

(* ------------------------------------------------------------------ *)
(** ** Basic facts: errors *)

Lemma error_eqb_refl (e : error) : error_eqb e e = true.
Proof.
  induction e; simpl; rewrite ?String.eqb_refl; auto.
Qed.

Lemma error_eqb_eq (a b : error) : error_eqb a b = true <-> a = b.
Proof.
  split.
  - revert b; induction a; destruct b; simpl; intros E; try discriminate; auto.
    + apply String.eqb_eq in E; subst; reflexivity.
    + apply String.eqb_eq in E; subst; reflexivity.
    + apply andb_true_iff in E as [E1 E2].
      apply String.eqb_eq in E1; apply IHa in E2; subst; reflexivity.
  - intros ->; apply error_eqb_refl.
Qed.

Lemma errors_Is_refl (e : error) : errors_Is e e = true.
Proof. destruct e; simpl; rewrite ?String.eqb_refl, ?error_eqb_refl; reflexivity. Qed.

(** Wrapping keeps every classification of the wrapped error. *)
Lemma errors_Is_Errorf (context : string) (e target : error) :
  errors_Is e target = true -> errors_Is (Errorf context e) target = true.
Proof.
  intros E; unfold Errorf; simpl; rewrite E; apply orb_true_r.
Qed.

(** Against a target that is not itself a wrapper, wrapping changes nothing. *)
Lemma errors_Is_Errorf_sentinel (context : string) (e target : error) :
  Unwrap target = None ->
  errors_Is (Errorf context e) target = errors_Is e target.
Proof.
  intros U; unfold Errorf; simpl; destruct target; simpl in *; try reflexivity.
  discriminate.
Qed.

(* ------------------------------------------------------------------ *)
(** ** Basic facts: lists of rows *)

Section Columns.
Variable col : URL -> string.

Lemma find_col_none (v : string) (t : table) :
  find (fun r => String.eqb (col r) v) t = None <-> (forall r, In r t -> col r <> v).
Proof.
  split.
  - intros F r Hin E.
    apply (find_none _ _ F) in Hin. simpl in Hin.
    rewrite E, String.eqb_refl in Hin. discriminate.
  - intros N. induction t as [|x t' IH]; simpl; [reflexivity|].
    destruct (String.eqb_spec (col x) v) as [E|_].
    + exfalso. apply (N x); [left; reflexivity | exact E].
    + apply IH. intros r Hin. apply N. right; exact Hin.
Qed.

Lemma find_col_some (v : string) (t : table) (r : URL) :
  find (fun r => String.eqb (col r) v) t = Some r -> In r t /\ col r = v.
Proof.
  intros F. apply find_some in F as [Hin E]. simpl in E.
  apply String.eqb_eq in E. split; assumption.
Qed.

Lemma existsb_col_false (v : string) (t : table) :
  existsb (fun r => String.eqb (col r) v) t = false <-> ~ In v (map col t).
Proof.
  induction t as [|x t' IH]; simpl.
  - split; [intros _ [] | reflexivity].
  - rewrite orb_false_iff, IH. split.
    + intros [E N] [H|H]; [|contradiction].
      rewrite H, String.eqb_refl in E. discriminate.
    + intros N. split.
      * destruct (String.eqb_spec (col x) v) as [E|_]; [|reflexivity].
        exfalso. apply N. left; exact E.
      * intros H. apply N. right; exact H.
Qed.

Lemma find_existsb_col (v : string) (t : table) :
  find (fun r => String.eqb (col r) v) t = None ->
  existsb (fun r => String.eqb (col r) v) t = false.
Proof.
  intros F. apply existsb_col_false. intros Hin.
  apply in_map_iff in Hin as (r & E & Hin).
  rewrite find_col_none in F. exact (F r Hin E).
Qed.

(** In a column without repetitions a value names its row. *)
Lemma find_col_unique (t : table) (r : URL) :
  NoDup (map col t) -> In r t ->
  find (fun x => String.eqb (col x) (col r)) t = Some r.
Proof.
  induction t as [|x t' IH]; simpl; intros ND Hin; [contradiction|].
  inversion ND as [|? ? Hnot ND']; subst.
  destruct Hin as [->|Hin].
  - rewrite String.eqb_refl. reflexivity.
  - destruct (String.eqb_spec (col x) (col r)) as [E|_].
    + exfalso. apply Hnot. rewrite E. apply in_map. exact Hin.
    + apply IH; assumption.
Qed.

Lemma col_injective (t : table) (r1 r2 : URL) :
  NoDup (map col t) -> In r1 t -> In r2 t -> col r1 = col r2 -> r1 = r2.
Proof.
  intros ND H1 H2 E.
  pose proof (find_col_unique t r1 ND H1) as F1.
  pose proof (find_col_unique t r2 ND H2) as F2.
  rewrite E in F1. congruence.
Qed.

Lemma find_col_snoc (v : string) (t : table) (x : URL) :
  find (fun r => String.eqb (col r) v) t = None -> col x = v ->
  find (fun r => String.eqb (col r) v) (t ++ [x]) = Some x.
Proof.
  intros F E. induction t as [|y t' IH]; simpl in *.
  - rewrite E, String.eqb_refl. reflexivity.
  - destruct (String.eqb (col y) v); [discriminate | apply IH; exact F].
Qed.

Lemma NoDup_col_snoc (t : table) (x : URL) :
  NoDup (map col t) -> ~ In (col x) (map col t) -> NoDup (map col (t ++ [x])).
Proof.
  intros ND N. rewrite map_app. simpl.
  induction (map col t) as [|y l IH]; simpl.
  - constructor; [intros [] | constructor].
  - inversion ND as [|? ? Hy ND']; subst. constructor.
    + rewrite in_app_iff. intros [H|[H|[]]]; [contradiction|].
      apply N. left. symmetry. exact H.
    + apply IH; [exact ND'|]. intros H. apply N. right. exact H.
Qed.

End Columns.

(* ------------------------------------------------------------------ *)
(** ** Basic facts: the statements and the two operations *)

Lemma insert_cases (f : fault) (u c : string) (t : table) :
  (exists e, insert f u c t = (t, Some e)) \/
  (f = None /\
   existsb (fun r => String.eqb (Original r) u) t = false /\
   existsb (fun r => String.eqb (Short r) c) t = false /\
   insert f u c t = ((t ++ [new_row u c t])%list, None)).
Proof.
  unfold insert. destruct f as [msg|].
  - left. eexists. reflexivity.
  - destruct (last_rowid t =? max_rowid)%Z; [left; eexists; reflexivity|].
    destruct (existsb (fun r => String.eqb (Original r) u) t) eqn:EO;
      [left; eexists; reflexivity|].
    destruct (existsb (fun r => String.eqb (Short r) c) t) eqn:ES;
      [left; eexists; reflexivity|].
    right. repeat split.
Qed.

(** [Save] always returns, in one of the four ways. *)
Lemma Save_spec (w : world) (u : string) (t : table) :
  Save_outcome w u t (Save w u t).
Proof.
  unfold Save, select_short.
  destruct (query_fault w) as [msg|] eqn:Q.
  - simpl. apply Save_query_failed with (msg := msg). exact Q.
  - destruct (find (fun r => String.eqb (Original r) u) t) as [r|] eqn:F.
    + apply Save_reused; assumption.
    + simpl.
      destruct (insert_cases (exec_fault w) u (generateShortCode (rand_raw w)) t)
        as [[e I]|(X & EO & ES & I)]; rewrite I.
      * apply Save_insert_failed; assumption.
      * apply Save_inserted; assumption.
Qed.

(** [Get] always returns, in one of the three ways. *)
Lemma Get_spec (w : world) (c : string) (t : table) :
  Get_outcome w c t (Get w c t).
Proof.
  unfold Get, select_original.
  destruct (query_fault w) as [msg|] eqn:Q.
  - simpl. apply Get_query_failed with (msg := msg). exact Q.
  - destruct (find (fun r => String.eqb (Short r) c) t) as [r|] eqn:F.
    + apply Get_found; assumption.
    + simpl. apply Get_not_found; assumption.
Qed.

(** A call only ever appends rows. *)
Lemma exec_extends (k : call) (t : table) :
  exists added, fst (exec k t) = (t ++ added)%list.
Proof.
  destruct k as [w u|w c]; simpl.
  - destruct (Save_spec w u t); simpl;
      try (exists []; rewrite app_nil_r; reflexivity).
    eexists; reflexivity.
  - destruct (Get_spec w c t); simpl; exists []; rewrite app_nil_r; reflexivity.
Qed.

Lemma run_extends (ks : list call) (t : table) :
  exists added, run ks t = (t ++ added)%list.
Proof.
  revert t. induction ks as [|k ks' IH]; intros t; simpl.
  - exists []. rewrite app_nil_r. reflexivity.
  - destruct (exec_extends k t) as [a1 E1]. destruct (IH (fst (exec k t))) as [a2 E2].
    exists (a1 ++ a2)%list. rewrite E2, E1, app_assoc. reflexivity.
Qed.

Lemma run_app (ks1 ks2 : list call) (t : table) :
  run (ks1 ++ ks2) t = run ks2 (run ks1 t).
Proof.
  revert t. induction ks1 as [|k ks IH]; intros t; simpl; [reflexivity | apply IH].
Qed.

Lemma reachable_exec (k : call) (t : table) :
  reachable t -> reachable (fst (exec k t)).
Proof.
  intros [ks ->]. exists (ks ++ [k])%list. rewrite run_app. reflexivity.
Qed.

Lemma reachable_run (ks : list call) (t : table) :
  reachable t -> reachable (run ks t).
Proof.
  intros [ks0 ->]. exists (ks0 ++ ks)%list. rewrite run_app. reflexivity.
Qed.

(** The uniqueness of both columns survives every call. *)
Lemma exec_unique (k : call) (t : table) :
  unique t -> unique (fst (exec k t)).
Proof.
  intros [UO US]. destruct k as [w u|w c]; simpl.
  - destruct (Save_spec w u t) as [msg Q|r Q F|e Q F I|Q F ES]; simpl;
      try (split; assumption).
    split.
    + apply NoDup_col_snoc; [exact UO|]. simpl.
      apply existsb_col_false, find_existsb_col. exact F.
    + apply NoDup_col_snoc; [exact US|]. simpl.
      apply existsb_col_false. exact ES.
  - destruct (Get_spec w c t); simpl; split; assumption.
Qed.

Lemma run_unique (ks : list call) (t : table) :
  unique t -> unique (run ks t).
Proof.
  revert t. induction ks as [|k ks' IH]; intros t U; simpl; [exact U|].
  apply IH, exec_unique, U.
Qed.

Lemma reachable_unique (t : table) : reachable t -> unique t.
Proof.
  intros [ks ->]. apply run_unique. split; constructor.
Qed.

(* ------------------------------------------------------------------ *)
(** ** Basic facts: generated codes *)

Lemma length_string_of_list_ascii (l : list ascii) :
  String.length (string_of_list_ascii l) = List.length l.
Proof. induction l as [|a l IH]; simpl; [reflexivity | rewrite IH; reflexivity]. Qed.

Lemma distinct_NoDup (l : list ascii) : distinct l = true -> NoDup l.
Proof.
  induction l as [|a l IH]; simpl; intros D; [constructor|].
  apply andb_true_iff in D as [N D]. constructor; [|apply IH; exact D].
  intros Hin. apply negb_true_iff in N.
  assert (X : existsb (Ascii.eqb a) l = true)
    by (apply existsb_exists; exists a; split; [exact Hin | apply Ascii.eqb_refl]).
  congruence.
Qed.

(** The alphabet of the generator is the set of alphanumeric symbols, and it
    lists each of them once. *)
Lemma base62Chars_alphabet :
  String.length base62Chars = 62 /\
  NoDup (list_ascii_of_string base62Chars) /\
  forall a, alphanumeric a = true <-> In a (list_ascii_of_string base62Chars).
Proof.
  split; [reflexivity|]. split.
  - apply distinct_NoDup. vm_compute. reflexivity.
  - intros a.
    assert (E : alphanumeric a = existsb (Ascii.eqb a) (list_ascii_of_string base62Chars)).
    { destruct a as [[] [] [] [] [] [] [] []]; vm_compute; reflexivity. }
    rewrite E, existsb_exists. split.
    + intros (x & Hin & Hx). apply Ascii.eqb_eq in Hx. subst. exact Hin.
    + intros Hin. exists a. split; [exact Hin | apply Ascii.eqb_refl].
Qed.

Lemma index_base62Chars_alphanumeric (k : nat) :
  k < 62 -> alphanumeric (index base62Chars k) = true.
Proof.
  intros Hk.
  assert (A : forallb (fun k => alphanumeric (index base62Chars k)) (seq 0 62) = true)
    by (vm_compute; reflexivity).
  rewrite forallb_forall in A. apply A. apply in_seq. lia.
Qed.

(** Whatever the generator draws, [generateShortCode] builds six
    alphanumeric symbols. *)
Lemma generateShortCode_shape (raw : nat -> nat) :
  code_shape (generateShortCode raw) = true.
Proof.
  unfold code_shape, generateShortCode. apply andb_true_iff. split.
  - rewrite length_string_of_list_ascii, length_map, length_seq. reflexivity.
  - rewrite list_ascii_of_string_of_list_ascii. apply forallb_forall.
    intros a Hin. apply in_map_iff in Hin as (i & <- & _).
    apply index_base62Chars_alphanumeric. unfold Intn.
    change (String.length base62Chars) with 62. apply Nat.mod_upper_bound. discriminate.
Qed.

(** The codes stored by a call are generated codes. *)
Lemma exec_codes (k : call) (t : table) :
  Forall (fun r => code_shape (Short r) = true) t ->
  Forall (fun r => code_shape (Short r) = true) (fst (exec k t)).
Proof.
  intros A. destruct k as [w u|w c]; simpl.
  - destruct (Save_spec w u t); simpl; try exact A.
    apply Forall_app. split; [exact A|]. constructor; [|constructor].
    simpl. apply generateShortCode_shape.
  - destruct (Get_spec w c t); simpl; exact A.
Qed.

Lemma reachable_codes (t : table) :
  reachable t -> Forall (fun r => code_shape (Short r) = true) t.
Proof.
  intros [ks ->].
  assert (G : forall t0, Forall (fun r => code_shape (Short r) = true) t0 ->
                         Forall (fun r => code_shape (Short r) = true) (run ks t0)).
  { induction ks as [|k ks' IH]; intros t0 A; simpl; [exact A|].
    apply IH, exec_codes, A. }
  apply G. constructor.
Qed.

(** Every stored code was returned by a successful [Shorten] of the history
    that built the table. *)
Lemma stored_was_returned (ks : list call) (t : table) (r : URL) :
  In r (run ks t) -> In r t \/ In (Short r) (returned ks t).
Proof.
  revert t. induction ks as [|k ks' IH]; intros t Hin; [left; exact Hin|].
  cbn [run] in Hin. apply IH in Hin. cbn [returned].
  destruct k as [w u|w c]; cbn [exec] in *.
  - destruct (Save_spec w u t) as [msg Q|r0 Q F|e Q F I|Q F ES]; cbn [fst] in *.
    + exact Hin.
    + destruct Hin as [H|H]; [left; exact H | right; right; exact H].
    + exact Hin.
    + destruct Hin as [H|H]; [|right; right; exact H].
      apply in_app_iff in H as [H|[<-|[]]]; [left; exact H|].
      right. left. reflexivity.
  - destruct (Get_spec w c t); cbn [fst] in *; exact Hin.
Qed.

Lemma reachable_stored_was_returned (ks : list call) (r : URL) :
  In r (run ks empty) -> In (Short r) (returned ks empty).
Proof.
  intros Hin. apply stored_was_returned in Hin as [[]|H]. exact H.
Qed.

(* ------------------------------------------------------------------ *)
(** ** Basic facts: what a successful call leaves behind *)

Lemma Save_found (w : world) (u : string) (t : table) (r : URL) :
  query_fault w = None ->
  find (fun x => String.eqb (Original x) u) t = Some r ->
  Save w u t = (t, (Short r, None)).
Proof.
  intros Q F. unfold Save, select_short. rewrite Q, F. reflexivity.
Qed.

Lemma Get_found_row (w : world) (c : string) (t : table) (r : URL) :
  query_fault w = None ->
  find (fun x => String.eqb (Short x) c) t = Some r ->
  Get w c t = (t, (Original r, None)).
Proof.
  intros Q F. unfold Get, select_original. rewrite Q, F. reflexivity.
Qed.

Lemma Get_missing (w : world) (c : string) (t : table) :
  query_fault w = None ->
  find (fun x => String.eqb (Short x) c) t = None ->
  Get w c t = (t, ("", Some ErrNotFound)).
Proof.
  intros Q F. unfold Get, select_original. rewrite Q, F. reflexivity.
Qed.

(** After a successful [Save] the lookup by original finds a row that holds
    the returned code; the table is the old one, or the old one and that row. *)
Lemma Save_success_row (w : world) (u : string) (t t1 : table) (c : string) :
  Save w u t = (t1, (c, None)) ->
  exists r, find (fun x => String.eqb (Original x) u) t1 = Some r /\
            Original r = u /\ Short r = c /\
            (t1 = t \/ t1 = (t ++ [r])%list).
Proof.
  intros E. pose proof (Save_spec w u t) as S. rewrite E in S.
  inversion S as [msg Q|r Q F|e Q F I|Q F ES]; subst.
  - exists r. destruct (find_col_some Original _ _ _ F) as [_ O].
    repeat split; auto.
  - eexists. split; [apply find_col_snoc; [exact F | reflexivity]|].
    repeat split. right. reflexivity.
Qed.

Lemma Save_reachable (w : world) (u : string) (t t1 : table) (x : ret) :
  reachable t -> Save w u t = (t1, x) -> reachable t1.
Proof.
  intros R E. change t1 with (fst (t1, x)). rewrite <- E.
  apply (reachable_exec (Shorten w u)), R.
Qed.

Lemma rows_for_unique (t : table) (r : URL) :
  NoDup (map Original t) -> In r t -> rows_for (Original r) t = [r].
Proof.
  unfold rows_for. induction t as [|x t' IH]; simpl; intros ND Hin; [contradiction|].
  inversion ND as [|? ? Hx ND']; subst.
  destruct Hin as [->|Hin].
  - rewrite String.eqb_refl. f_equal.
    clear IH ND ND'. induction t' as [|y t'' IH']; simpl; [reflexivity|].
    destruct (String.eqb_spec (Original y) (Original r)) as [E|_].
    + exfalso. apply Hx. left. exact E.
    + apply IH'. intros H. apply Hx. right. exact H.
  - destruct (String.eqb_spec (Original x) (Original r)) as [E|_].
    + exfalso. apply Hx. rewrite E. apply in_map. exact Hin.
    + apply IH; assumption.
Qed.

(* ------------------------------------------------------------------ *)
(** ** The code store: re-submission, round trip, unknown codes, code shape *)

(** C1. Shortening the same original twice gives the same code and no second
    mapping: once [Save u] has succeeded with code [c], a second [Save u]
    whose lookup reaches the table returns [c] and leaves the table as it is,
    whatever the generator would draw; the table holds exactly one row for
    [u], and it carries [c]; and for every stored mapping, [Save] of its
    original returns its code without touching the table. *)
Theorem Shorten_twice_same_code
  (w1 w2 : world) (u : string) (t t1 : table) (c : string) :
  reachable t ->
  Save w1 u t = (t1, (c, None)) ->
  query_fault w2 = None ->
  Save w2 u t1 = (t1, (c, None)) /\
  (exists r, rows_for u t1 = [r] /\ Short r = c) /\
  (forall r, In r t1 -> Save w2 (Original r) t1 = (t1, (Short r, None))).
Proof.
  intros R E Q.
  destruct (Save_success_row _ _ _ _ _ E) as (r & F & O & S & _).
  assert (U : unique t1) by (apply reachable_unique; eapply Save_reachable; eauto).
  destruct U as [UO _].
  split; [|split].
  - rewrite <- S. apply Save_found; assumption.
  - exists r. split; [|exact S]. rewrite <- O.
    apply rows_for_unique; [exact UO|].
    apply (find_col_some Original _ _ _ F).
  - intros r' Hin. apply Save_found; [exact Q|].
    apply find_col_unique; assumption.
Qed.

Lemma Shorten_twice_same_code_witness :
  reachable empty /\
  Save (calm 0) url_a empty = (table_a, ("000000", None)) /\
  Save (calm 7) url_a table_a = (table_a, ("000000", None)) /\
  (exists r, rows_for url_a table_a = [r] /\ Short r = "000000").
Proof.
  assert (R : reachable empty) by (exists []; reflexivity).
  pose proof (Shorten_twice_same_code (calm 0) (calm 7) url_a empty table_a "000000"
                R eq_refl eq_refl) as (A & B & _).
  split; [exact R|]. split; [reflexivity|]. split; [exact A | exact B].
Defined.

(** C2. Round trip: when [Save u] succeeds with code [c], on the insert path
    or on the path that reuses a stored mapping, a [Get c] whose lookup
    reaches the table returns [u]. *)
Theorem Resolve_after_Shorten
  (w1 w2 : world) (u : string) (t t1 : table) (c : string) :
  reachable t ->
  Save w1 u t = (t1, (c, None)) ->
  query_fault w2 = None ->
  Get w2 c t1 = (t1, (u, None)).
Proof.
  intros R E Q.
  destruct (Save_success_row _ _ _ _ _ E) as (r & F & O & S & _).
  assert (U : unique t1) by (apply reachable_unique; eapply Save_reachable; eauto).
  destruct U as [_ US].
  rewrite <- O, <- S. apply Get_found_row; [exact Q|].
  apply find_col_unique; [exact US|].
  apply (find_col_some Original _ _ _ F).
Qed.

Lemma Resolve_after_Shorten_witness :
  (Save (calm 0) url_a empty = (table_a, ("000000", None)) /\
   Get (calm 0) "000000" table_a = (table_a, (url_a, None))) /\
  (reachable table_a /\
   Save (calm 9) url_a table_a = (table_a, ("000000", None)) /\
   Get (calm 0) "000000" table_a = (table_a, (url_a, None))).
Proof.
  assert (R0 : reachable empty) by (exists []; reflexivity).
  assert (R1 : reachable table_a) by (exists [Shorten (calm 0) url_a]; reflexivity).
  split.
  - split; [reflexivity|].
    exact (Resolve_after_Shorten (calm 0) (calm 0) url_a empty table_a "000000"
             R0 eq_refl eq_refl).
  - split; [exact R1|]. split; [reflexivity|].
    exact (Resolve_after_Shorten (calm 9) (calm 0) url_a table_a table_a "000000"
             R1 eq_refl eq_refl).
Defined.

(** C3. When the lookup reaches the table, [Get c] fails with [ErrNotFound]
    for every [c] that is the code of no stored mapping, in particular for
    every [c] that no successful [Save] of the history returned, and for the
    code of a stored mapping it returns that mapping's original without
    error. *)
Theorem Resolve_unknown_is_NotFound (w : world) (c : string) (ks : list call) :
  query_fault w = None ->
  let t := run ks empty in
  ((forall r, In r t -> Short r <> c) -> Get w c t = (t, ("", Some ErrNotFound))) /\
  (~ In c (returned ks empty) -> Get w c t = (t, ("", Some ErrNotFound))) /\
  (forall r, In r t -> Short r = c -> Get w c t = (t, (Original r, None))).
Proof.
  intros Q t. split; [|split].
  - intros N. apply Get_missing; [exact Q|]. apply find_col_none. exact N.
  - intros N. apply Get_missing; [exact Q|]. apply find_col_none.
    intros r Hin E. apply N. rewrite <- E.
    apply reachable_stored_was_returned. exact Hin.
  - intros r Hin <-. apply Get_found_row; [exact Q|].
    apply find_col_unique; [|exact Hin].
    apply (reachable_unique t). exists ks. reflexivity.
Qed.

Lemma Resolve_unknown_is_NotFound_witness :
  Get (calm 0) "zzzzzz" table_a = (table_a, ("", Some ErrNotFound)) /\
  Get (calm 0) "000000" table_a = (table_a, (url_a, None)).
Proof.
  pose proof (Resolve_unknown_is_NotFound (calm 0) "zzzzzz" [Shorten (calm 0) url_a] eq_refl)
    as (_ & A & _).
  pose proof (Resolve_unknown_is_NotFound (calm 0) "000000" [Shorten (calm 0) url_a] eq_refl)
    as (_ & _ & B).
  split.
  - apply A. simpl. intros [H|[]]. discriminate H.
  - apply (B (mkURL 1 url_a "000000")); [left; reflexivity | reflexivity].
Defined.

(** C4. Every code a successful [Save] returns, freshly generated or read
    back from a stored mapping, has exactly six symbols, each of them one of
    the 62 symbols of [base62Chars], that is a digit, a lowercase letter or an
    uppercase letter. *)
Theorem Shorten_code_shape (w : world) (u : string) (t t1 : table) (c : string) :
  reachable t ->
  Save w u t = (t1, (c, None)) ->
  String.length c = 6 /\
  Forall (fun a => In a (list_ascii_of_string base62Chars)) (list_ascii_of_string c) /\
  Forall (fun a => alphanumeric a = true) (list_ascii_of_string c).
Proof.
  intros R E.
  destruct (Save_success_row _ _ _ _ _ E) as (r & F & _ & S & _).
  assert (A : Forall (fun r => code_shape (Short r) = true) t1)
    by (apply reachable_codes; eapply Save_reachable; eauto).
  rewrite Forall_forall in A.
  specialize (A r (proj1 (find_col_some Original _ _ _ F))).
  rewrite S in A. unfold code_shape in A.
  apply andb_true_iff in A as [L B]. apply Nat.eqb_eq in L.
  rewrite forallb_forall in B.
  split; [exact L|]. split; apply Forall_forall; intros a Hin.
  - apply base62Chars_alphabet. apply B. exact Hin.
  - apply B. exact Hin.
Qed.

Lemma Shorten_code_shape_witness :
  reachable table_a /\
  Save (mkWorld None None (fun i => 10 * i + 61)) url_b table_a
    = ((table_a ++ [mkURL 2 url_b "Z9jtDN"])%list, ("Z9jtDN", None)) /\
  String.length "Z9jtDN" = 6 /\
  Forall (fun a => alphanumeric a = true) (list_ascii_of_string "Z9jtDN").
Proof.
  assert (R1 : reachable table_a) by (exists [Shorten (calm 0) url_a]; reflexivity).
  pose proof (Shorten_code_shape (mkWorld None None (fun i => 10 * i + 61)) url_b
                table_a _ "Z9jtDN" R1 eq_refl) as (L & _ & A).
  split; [exact R1|]. split; [reflexivity|]. split; [exact L | exact A].
Defined.

(* ------------------------------------------------------------------ *)
(** ** The code store: collisions, uniqueness, immutability, failures *)

(** C5, on the code as it is.  A [Save] whose generated code collides with a
    stored code is not retried: the one insert is refused, the table stays as
    it was, and the duplicate-key error of the storage layer comes back,
    wrapped with the context of the insert. *)
Theorem Shorten_collision_surfaces_duplicate_key (w : world) (u : string) (t : table) :
  collides w u t ->
  Save w u t =
    (t, ("", Some (Errorf "persistence: failed to insert url"
                          (ErrConstraintUnique "urls.short")))) /\
  (forall e, snd (snd (Save w u t)) = Some e -> is_duplicate_key e = true).
Proof.
  intros (Q & X & NO & (r & Hin & HS) & L).
  assert (E : Save w u t =
    (t, ("", Some (Errorf "persistence: failed to insert url"
                          (ErrConstraintUnique "urls.short"))))).
  { unfold Save, select_short. rewrite Q.
    rewrite (proj2 (find_col_none Original u t) NO). simpl.
    unfold insert. rewrite X.
    destruct (Z.eqb_spec (last_rowid t) max_rowid) as [F|_]; [lia|].
    rewrite (find_existsb_col Original u t (proj2 (find_col_none Original u t) NO)).
    destruct (existsb (fun r0 => String.eqb (Short r0) (generateShortCode (rand_raw w))) t)
      eqn:ES; [reflexivity|].
    exfalso. rewrite existsb_col_false in ES. apply ES.
    rewrite <- HS. apply in_map. exact Hin. }
  split; [exact E|]. rewrite E. simpl. intros e [= <-]. reflexivity.
Qed.

Lemma Shorten_collision_surfaces_duplicate_key_witness :
  collides (calm 0) url_b table_a /\
  Save (calm 0) url_b table_a =
    (table_a,
     ("", Some (wrapError
                  "persistence: failed to insert url: UNIQUE constraint failed: urls.short"
                  (ErrConstraintUnique "urls.short")))).
Proof.
  assert (C : collides (calm 0) url_b table_a).
  { repeat split.
    - intros r [<-|[]]. discriminate.
    - exists (mkURL 1 url_a "000000"). split; [left; reflexivity | reflexivity]. }
  split; [exact C|].
  exact (proj1 (Shorten_collision_surfaces_duplicate_key (calm 0) url_b table_a C)).
Defined.

(** C5 as the specification words it does not hold: with one stored mapping
    whose code is [000000] and a generator that draws zeros, [Save] of another
    original collides, is not retried and ends in the duplicate-key error. *)
Lemma Shorten_collision_not_retried :
  collides (calm 0) url_b table_a /\
  Save (calm 0) url_b table_a =
    (table_a,
     ("", Some (wrapError
                  "persistence: failed to insert url: UNIQUE constraint failed: urls.short"
                  (ErrConstraintUnique "urls.short")))) /\
  ~ collision_is_retried.
Proof.
  assert (C : collides (calm 0) url_b table_a).
  { repeat split.
    - intros r [<-|[]]. discriminate.
    - exists (mkURL 1 url_a "000000"). split; [left; reflexivity | reflexivity]. }
  split; [exact C|]. split; [reflexivity|].
  intros H. specialize (H _ _ _ C). vm_compute in H. discriminate H.
Qed.

(** C6. In every table the program can hold, [original] and [short] are each
    unique across the rows; every call keeps them so; and two successful
    [Save] calls of one history with different originals return different
    codes. *)
Theorem uniqueness_invariant (t : table) :
  reachable t ->
  unique t /\
  (forall k, unique (fst (exec k t))) /\
  (forall k t', unique t' -> unique (fst (exec k t'))) /\
  (forall w1 w2 u1 u2 ks t1 t2 c1 c2,
      Save w1 u1 t = (t1, (c1, None)) ->
      Save w2 u2 (run ks t1) = (t2, (c2, None)) ->
      u1 <> u2 -> c1 <> c2).
Proof.
  intros R. split; [apply reachable_unique, R|].
  split; [intros k; apply exec_unique, reachable_unique, R|].
  split; [intros k t'; apply exec_unique|].
  intros w1 w2 u1 u2 ks t1 t2 c1 c2 E1 E2 D EC.
  destruct (Save_success_row _ _ _ _ _ E1) as (r1 & F1 & O1 & S1 & _).
  destruct (Save_success_row _ _ _ _ _ E2) as (r2 & F2 & O2 & S2 & _).
  assert (R1 : reachable t1) by (eapply Save_reachable; eauto).
  assert (R2 : reachable t2).
  { eapply Save_reachable; [|exact E2]. apply reachable_run, R1. }
  destruct (reachable_unique _ R2) as [_ US].
  assert (I1 : In r1 t2).
  { destruct (run_extends ks t1) as [a1 X1].
    destruct (exec_extends (Shorten w2 u2) (run ks t1)) as [a2 X2].
    simpl in X2. rewrite E2 in X2. simpl in X2. rewrite X2, X1.
    apply in_or_app. left. apply in_or_app. left.
    apply (find_col_some Original _ _ _ F1). }
  assert (I2 : In r2 t2) by apply (find_col_some Original _ _ _ F2).
  apply D. rewrite <- O1, <- O2. f_equal.
  apply (col_injective Short t2); [exact US | exact I1 | exact I2 | congruence].
Qed.

Lemma uniqueness_invariant_witness :
  reachable table_a /\ unique table_a /\
  Save (calm 0) url_a table_a = (table_a, ("000000", None)) /\
  Save (calm 1) url_b table_a
    = ((table_a ++ [mkURL 2 url_b "111111"])%list, ("111111", None)) /\
  "000000" <> "111111".
Proof.
  assert (R1 : reachable table_a) by (exists [Shorten (calm 0) url_a]; reflexivity).
  pose proof (uniqueness_invariant table_a R1) as (U & _ & _ & D).
  split; [exact R1|]. split; [exact U|]. split; [reflexivity|]. split; [reflexivity|].
  apply (D (calm 0) (calm 1) url_a url_b [] table_a _ "000000" "111111" eq_refl eq_refl).
  discriminate.
Defined.

(** C7. No call updates or deletes a mapping: after any call, and after any
    history of calls, successful or not, the table is the old table followed
    by the rows added, so every row is still there with its fields as they
    were. *)
Theorem mappings_are_immutable (k : call) (ks : list call) (t : table) (r : URL) :
  In r t ->
  In r (fst (exec k t)) /\
  In r (run ks t) /\
  (exists added, fst (exec k t) = (t ++ added)%list) /\
  (exists added, run ks t = (t ++ added)%list).
Proof.
  intros Hin.
  destruct (exec_extends k t) as [a1 E1]. destruct (run_extends ks t) as [a2 E2].
  split; [rewrite E1; apply in_or_app; left; exact Hin|].
  split; [rewrite E2; apply in_or_app; left; exact Hin|].
  split; [exists a1; exact E1 | exists a2; exact E2].
Qed.

Lemma mappings_are_immutable_witness :
  In (mkURL 1 url_a "000000") table_a /\
  In (mkURL 1 url_a "000000") (fst (exec (Shorten (calm 0) url_b) table_a)) /\
  In (mkURL 1 url_a "000000")
     (run [Shorten (calm 1) url_b; Resolve broken_query "111111"] table_a).
Proof.
  assert (Hin : In (mkURL 1 url_a "000000") table_a) by (left; reflexivity).
  pose proof (mappings_are_immutable (Shorten (calm 0) url_b)
                [Shorten (calm 1) url_b; Resolve broken_query "111111"]
                table_a _ Hin) as (A & B & _).
  split; [exact Hin|]. split; [exact A | exact B].
Defined.

(** C9. [Get] only reads: whatever the code and whatever the table, found,
    not found or storage failure, the table after the call is the table
    before it; the same holds through [GetURL]. *)
Theorem Resolve_is_pure_read (w : world) (c : string) (t : table) :
  fst (Get w c t) = t /\ fst (core.GetURL w c t) = t.
Proof.
  assert (G : fst (Get w c t) = t) by (destruct (Get_spec w c t); reflexivity).
  split; [exact G|].
  unfold core.GetURL. simpl. destruct (Get w c t) as [t1 [x [e|]]]; exact G.
Qed.

(** C10. A failing [Save] leaves nothing behind: when [Save] returns an
    error, from the lookup or from the insert, the table after the call is
    the table before it, and the returned code is the empty string. *)
Theorem Shorten_failure_is_atomic
  (w : world) (u : string) (t t1 : table) (s : string) (e : error) :
  Save w u t = (t1, (s, Some e)) ->
  t1 = t /\ s = "".
Proof.
  intros E. pose proof (Save_spec w u t) as S. rewrite E in S.
  inversion S; subst; split; reflexivity.
Qed.

Lemma Shorten_failure_is_atomic_witness :
  (Save broken_query url_b table_a =
     (table_a, ("", Some (wrapError "persistence: failed to query url: disk I/O error"
                                    (ErrDriver "disk I/O error")))) /\
   table_a = table_a /\ "" = "") /\
  (Save broken_exec url_b table_a =
     (table_a, ("", Some (wrapError "persistence: failed to insert url: disk I/O error"
                                    (ErrDriver "disk I/O error")))) /\
   table_a = table_a /\ "" = "").
Proof.
  split; (split; [reflexivity|]).
  - exact (Shorten_failure_is_atomic broken_query url_b table_a _ _ _ eq_refl).
  - exact (Shorten_failure_is_atomic broken_exec url_b table_a _ _ _ eq_refl).
Defined.

(* ------------------------------------------------------------------ *)
(** ** The mapping service *)

(** C8. Over any implementation of [URLPersistence], an error of the store
    comes back from [ShortenURL] and [GetURL] wrapped once with the
    operation's context: the store's error is what [Unwrap] gives, every
    classification [errors.Is] makes of the store's error holds of the
    returned one, and "not found" is neither gained nor lost.  Over the
    SQLite store, [GetURL] of a code that no mapping carries returns an error
    that is "not found", and a storage failure returns one that is not. *)
Theorem Core_preserves_error_kind :
  (forall (P W : Type) (H : URLPersistence P W)
          (w : W) (s : string) (p p1 : P) (x : string) (e : error),
      types.Get w s p = (p1, (x, Some e)) ->
      core.GetURL w s p = (p1, ("", Some (Errorf "core: failed to get url" e))) /\
      Unwrap (Errorf "core: failed to get url" e) = Some e /\
      (forall target, errors_Is e target = true ->
                      errors_Is (Errorf "core: failed to get url" e) target = true) /\
      is_not_found (Errorf "core: failed to get url" e) = is_not_found e) /\
  (forall (P W : Type) (H : URLPersistence P W)
          (w : W) (s : string) (p p1 : P) (x : string) (e : error),
      types.Save w s p = (p1, (x, Some e)) ->
      core.ShortenURL w s p = (p1, ("", Some (Errorf "core: failed to shorten url" e))) /\
      Unwrap (Errorf "core: failed to shorten url" e) = Some e /\
      (forall target, errors_Is e target = true ->
                      errors_Is (Errorf "core: failed to shorten url" e) target = true) /\
      is_not_found (Errorf "core: failed to shorten url" e) = is_not_found e) /\
  (forall (w : world) (c : string) (t : table),
      query_fault w = None -> (forall r, In r t -> Short r <> c) ->
      exists e, core.GetURL w c t = (t, ("", Some e)) /\ is_not_found e = true) /\
  (forall (w : world) (c : string) (t : table) (msg : string),
      query_fault w = Some msg ->
      exists e, core.GetURL w c t = (t, ("", Some e)) /\ is_not_found e = false).
Proof.
  split; [|split; [|split]].
  - intros P W H w s p p1 x e E. split; [|split; [|split]].
    + unfold core.GetURL. rewrite E. reflexivity.
    + reflexivity.
    + intros target. apply errors_Is_Errorf.
    + apply errors_Is_Errorf_sentinel. reflexivity.
  - intros P W H w s p p1 x e E. split; [|split; [|split]].
    + unfold core.ShortenURL. rewrite E. reflexivity.
    + reflexivity.
    + intros target. apply errors_Is_Errorf.
    + apply errors_Is_Errorf_sentinel. reflexivity.
  - intros w c t Q N. eexists. split.
    + unfold core.GetURL. simpl.
      rewrite (Get_missing w c t Q (proj2 (find_col_none Short c t) N)). reflexivity.
    + reflexivity.
  - intros w c t msg Q. eexists. split.
    + unfold core.GetURL, types.Get. simpl. unfold Get, select_original.
      rewrite Q. simpl. reflexivity.
    + reflexivity.
Qed.

Lemma Core_preserves_error_kind_witness :
  core.GetURL (calm 0) "zzzzzz" table_a =
    (table_a, ("", Some (wrapError "core: failed to get url: types: record not found"
                                   ErrNotFound))) /\
  (exists e, core.GetURL (calm 0) "zzzzzz" table_a = (table_a, ("", Some e)) /\
             is_not_found e = true) /\
  (exists e, core.GetURL broken_query "zzzzzz" table_a = (table_a, ("", Some e)) /\
             is_not_found e = false).
Proof.
  destruct Core_preserves_error_kind as (G & _ & N & F).
  split; [|split].
  - exact (proj1 (G table world SQLitePersistence (calm 0) "zzzzzz" table_a table_a ""
                    ErrNotFound eq_refl)).
  - apply N; [reflexivity|]. intros r [<-|[]]. discriminate.
  - apply (F broken_query "zzzzzz" table_a "disk I/O error"). reflexivity.
Defined.

(* ------------------------------------------------------------------ *)
(** ** More on the generator *)

Lemma index_position_alphanumeric (a : ascii) :
  alphanumeric a = true ->
  index base62Chars
        (Intn (String.length base62Chars)
              (position a (list_ascii_of_string base62Chars))) = a.
Proof.
  destruct a as [[] [] [] [] [] [] [] []]; vm_compute; intros E;
    first [reflexivity | discriminate E].
Qed.

Lemma position_index_base62Chars (k : nat) :
  k < 62 -> position (index base62Chars k) (list_ascii_of_string base62Chars) = k.
Proof.
  intros Hk.
  assert (A : forallb
                (fun k => Nat.eqb (position (index base62Chars k)
                                            (list_ascii_of_string base62Chars)) k)
                (seq 0 62) = true) by (vm_compute; reflexivity).
  rewrite forallb_forall in A. apply Nat.eqb_eq, A, in_seq. lia.
Qed.

Lemma map_nth_six (A B : Type) (f : A -> B) (d : A) (l : list A) :
  List.length l = 6 -> map (fun i => f (nth i l d)) (seq 0 6) = map f l.
Proof.
  intros L.
  destruct l as [|a0 [|a1 [|a2 [|a3 [|a4 [|a5 [|a6 l]]]]]]]; try discriminate L.
  reflexivity.
Qed.

Lemma length_list_ascii_of_string (s : string) :
  List.length (list_ascii_of_string s) = String.length s.
Proof. induction s as [|a s IH]; simpl; [reflexivity | rewrite IH; reflexivity]. Qed.

(** X1. The generator reaches the whole code space: every string of six
    alphanumeric symbols is the code [generateShortCode] builds from the
    draws that name its symbols. *)
Theorem generateShortCode_reaches_every_code (c : string) :
  code_shape c = true ->
  generateShortCode (draws_for c) = c.
Proof.
  intros S. unfold code_shape in S. apply andb_true_iff in S as [L A].
  apply Nat.eqb_eq in L. rewrite forallb_forall in A.
  unfold generateShortCode, draws_for. change shortCodeLength with 6.
  rewrite (map_nth_six _ _
             (fun a => index base62Chars
                         (Intn (String.length base62Chars)
                               (position a (list_ascii_of_string base62Chars))))).
  - rewrite <- (string_of_list_ascii_of_string c) at 2. f_equal.
    rewrite <- (map_id (list_ascii_of_string c)) at 2.
    apply map_ext_in. intros a Hin. apply index_position_alphanumeric, A, Hin.
  - rewrite length_list_ascii_of_string. exact L.
Qed.

Lemma generateShortCode_reaches_every_code_witness :
  code_shape "Z9jtDN" = true /\ generateShortCode (draws_for "Z9jtDN") = "Z9jtDN".
Proof.
  split; [reflexivity|].
  exact (generateShortCode_reaches_every_code "Z9jtDN" eq_refl).
Defined.

(** X2. A code is its six draws modulo 62 and nothing else: two sequences of
    draws give the same code exactly when their first six draws agree modulo
    62. *)
Theorem generateShortCode_eq_iff (raw1 raw2 : nat -> nat) :
  generateShortCode raw1 = generateShortCode raw2 <->
  (forall i, i < 6 -> raw1 i mod 62 = raw2 i mod 62).
Proof.
  unfold generateShortCode. change shortCodeLength with 6.
  change (String.length base62Chars) with 62. unfold Intn. split.
  - intros E i Hi.
    apply (f_equal list_ascii_of_string) in E.
    rewrite !list_ascii_of_string_of_list_ascii in E.
    assert (Ei : index base62Chars (raw1 i mod 62) = index base62Chars (raw2 i mod 62)).
    { cbn [map seq] in E. injection E as E0 E1 E2 E3 E4 E5.
      do 6 (destruct i as [|i]; [assumption|]). lia. }
    rewrite <- (position_index_base62Chars (raw1 i mod 62)),
            <- (position_index_base62Chars (raw2 i mod 62));
      try (apply Nat.mod_upper_bound; discriminate).
    rewrite Ei. reflexivity.
  - intros E. f_equal. apply map_ext_in. intros i Hin.
    apply in_seq in Hin. rewrite E; [reflexivity | lia].
Qed.

(* ------------------------------------------------------------------ *)
(** ** More on the code store *)

(** X3. When [Save] succeeds: exactly when the lookup is answered and either
    the original is already stored, or the insert is answered, the table has
    a row id left and the generated code is the code of no stored mapping. *)
Theorem Save_succeeds_iff (w : world) (u : string) (t : table) :
  snd (snd (Save w u t)) = None <->
  query_fault w = None /\
  ((exists r, In r t /\ Original r = u) \/
   (exec_fault w = None /\ last_rowid t <> max_rowid /\
    forall r, In r t -> Short r <> generateShortCode (rand_raw w))).
Proof.
  unfold Save, select_short.
  destruct (query_fault w) as [msg|] eqn:Q; simpl.
  - split; [discriminate | intros [D _]; discriminate D].
  - destruct (find (fun r => String.eqb (Original r) u) t) as [r|] eqn:F; simpl.
    + split; [|reflexivity]. intros _. split; [reflexivity|]. left.
      exists r. apply (find_col_some Original _ _ _ F).
    + pose proof (proj1 (find_col_none Original u t) F) as NO.
      unfold insert. destruct (exec_fault w) as [msg|] eqn:X; simpl.
      * split; [discriminate|]. intros [_ [(r & Hin & O)|[D _]]];
          [exfalso; exact (NO r Hin O) | discriminate D].
      * destruct (Z.eqb_spec (last_rowid t) max_rowid) as [L|L]; simpl.
        { split; [discriminate|]. intros [_ [(r & Hin & O)|(_ & D & _)]];
            [exfalso; exact (NO r Hin O) | contradiction]. }
        rewrite (find_existsb_col Original u t F).
        destruct (existsb (fun r => String.eqb (Short r) (generateShortCode (rand_raw w))) t)
          eqn:ES; simpl.
        { split; [discriminate|]. intros [_ [(r & Hin & O)|(_ & _ & N)]];
            [exfalso; exact (NO r Hin O)|].
          apply existsb_exists in ES as (r & Hin & E). apply String.eqb_eq in E.
          exfalso. exact (N r Hin E). }
        split; [|reflexivity]. intros _. split; [reflexivity|]. right.
        split; [reflexivity|]. split; [exact L|].
        intros r Hin E. rewrite existsb_col_false in ES. apply ES.
        rewrite <- E. apply in_map. exact Hin.
Qed.

(** X4. [Get] answers [ErrNotFound] exactly when the lookup was answered and
    no stored mapping carries the code; a storage failure is never reported
    as "not found" by the store. *)
Theorem Get_NotFound_iff (w : world) (c : string) (t : table) :
  (snd (snd (Get w c t)) = Some ErrNotFound <->
   query_fault w = None /\ forall r, In r t -> Short r <> c) /\
  (forall e, snd (snd (Get w c t)) = Some e ->
             is_not_found e = true <-> e = ErrNotFound).
Proof.
  split.
  - destruct (Get_spec w c t) as [msg Q|r Q F|Q F]; simpl.
    + split; [discriminate | intros [D _]; congruence].
    + split; [discriminate|]. intros [_ N].
      destruct (find_col_some Short _ _ _ F) as [Hin E]. exfalso. exact (N r Hin E).
    + split; [|reflexivity]. intros _. split; [exact Q|].
      apply find_col_none. exact F.
  - intros e. destruct (Get_spec w c t) as [msg Q|r Q F|Q F]; simpl; intros [= <-].
    + split; discriminate.
    + split; reflexivity.
Qed.

Lemma insert_error_kind (f : fault) (u c : string) (t t' : table) (e : error) :
  insert f u c t = (t', Some e) ->
  Unwrap e = None /\ e <> ErrNotFound /\ e <> ErrNoRows.
Proof.
  unfold insert. intros I. destruct f.
  - injection I as _ <-. repeat split; discriminate.
  - destruct (last_rowid t =? max_rowid)%Z;
      [injection I as _ <-; repeat split; discriminate|].
    destruct (existsb (fun r => String.eqb (Original r) u) t);
      [injection I as _ <-; repeat split; discriminate|].
    destruct (existsb (fun r => String.eqb (Short r) c) t);
      [injection I as _ <-; repeat split; discriminate|].
    discriminate I.
Qed.

(** X5. An error of [Save] is a storage error wrapped once with the step
    that failed, the lookup or the insert; it is never "not found", and the
    code returned beside it is the empty string. *)
Theorem Save_error_is_wrapped_storage_error
  (w : world) (u : string) (t t1 : table) (s : string) (e : error) :
  Save w u t = (t1, (s, Some e)) ->
  s = "" /\ is_not_found e = false /\
  exists inner,
    Unwrap e = Some inner /\ Unwrap inner = None /\
    inner <> ErrNotFound /\ inner <> ErrNoRows /\
    (e = Errorf "persistence: failed to query url" inner \/
     e = Errorf "persistence: failed to insert url" inner).
Proof.
  intros E. pose proof (Save_spec w u t) as S. rewrite E in S.
  inversion S as [msg Q|r Q F|e0 Q F I|Q F ES]; subst.
  - split; [reflexivity|]. split; [reflexivity|].
    exists (ErrDriver msg). repeat split; try discriminate. left. reflexivity.
  - split; [reflexivity|].
    pose proof (insert_error_kind _ _ _ _ _ _ I) as K.
    destruct K as (K1 & K2 & K3). split.
    + unfold is_not_found. rewrite errors_Is_Errorf_sentinel by reflexivity.
      destruct e0; simpl in *; try reflexivity; try congruence.
    + exists e0. repeat split; try assumption. right. reflexivity.
Qed.

Lemma Save_error_is_wrapped_storage_error_witness :
  Save broken_exec url_b table_a =
    (table_a, ("", Some (Errorf "persistence: failed to insert url"
                                (ErrDriver "disk I/O error")))) /\
  is_not_found (Errorf "persistence: failed to insert url"
                       (ErrDriver "disk I/O error")) = false.
Proof.
  split; [reflexivity|].
  exact (proj1 (proj2 (Save_error_is_wrapped_storage_error
                         broken_exec url_b table_a _ _ _ eq_refl))).
Defined.

(** X6. A string that is not six alphanumeric symbols never resolves: in any
    table the program can hold, [Get] of such a string, the lookup being
    answered, is [ErrNotFound]. *)
Theorem Get_malformed_code_is_NotFound (w : world) (c : string) (t : table) :
  reachable t ->
  code_shape c = false ->
  query_fault w = None ->
  Get w c t = (t, ("", Some ErrNotFound)).
Proof.
  intros R S Q. apply Get_missing; [exact Q|]. apply find_col_none.
  intros r Hin E. pose proof (reachable_codes t R) as A.
  rewrite Forall_forall in A. specialize (A r Hin). congruence.
Qed.

Lemma Get_malformed_code_is_NotFound_witness :
  reachable table_a /\ code_shape "" = false /\
  Get (calm 0) "" table_a = (table_a, ("", Some ErrNotFound)) /\
  Get (calm 0) "00000-" table_a = (table_a, ("", Some ErrNotFound)).
Proof.
  assert (R1 : reachable table_a) by (exists [Shorten (calm 0) url_a]; reflexivity).
  split; [exact R1|]. split; [reflexivity|]. split.
  - exact (Get_malformed_code_is_NotFound (calm 0) "" table_a R1 eq_refl eq_refl).
  - exact (Get_malformed_code_is_NotFound (calm 0) "00000-" table_a R1 eq_refl eq_refl).
Defined.

Lemma returned_was_stored (ks : list call) (t : table) (c : string) :
  In c (returned ks t) -> exists r, In r (run ks t) /\ Short r = c.
Proof.
  revert t. induction ks as [|k ks' IH]; intros t Hin; [destruct Hin|].
  cbn [returned run] in *.
  destruct k as [w u|w x]; cbn [exec] in *.
  - destruct (Save w u t) as [t1 [s [e|]]] eqn:E; cbn [fst] in *.
    + apply IH. exact Hin.
    + destruct Hin as [<-|Hin]; [|apply IH; exact Hin].
      destruct (Save_success_row _ _ _ _ _ E) as (r & F & _ & S & _).
      exists r. split; [|exact S].
      destruct (run_extends ks' t1) as [a ->]. apply in_or_app. left.
      apply (find_col_some Original _ _ _ F).
  - destruct (Get w x t) as [t1 [s [e|]]] eqn:E; cbn [fst] in *; apply IH; exact Hin.
Qed.

(** X7. The codes that resolve are the codes that were handed out: after any
    history from the empty table, a string is the code of a stored mapping
    exactly when some successful [Save] of the history returned it. *)
Theorem stored_codes_are_returned_codes (ks : list call) (c : string) :
  (exists r, In r (run ks empty) /\ Short r = c) <-> In c (returned ks empty).
Proof.
  split.
  - intros (r & Hin & <-). apply reachable_stored_was_returned. exact Hin.
  - apply returned_was_stored.
Qed.

Lemma last_rowid_snoc (t : table) (x : URL) :
  last_rowid (t ++ [x])%list = Z.max (last_rowid t) (Z.max (ID x) 0).
Proof.
  unfold last_rowid. induction t as [|y t' IH]; simpl; [lia|].
  rewrite IH. lia.
Qed.

Lemma consecutive_ids_last (t : table) :
  map ID t = map Z.of_nat (seq 1 (List.length t)) ->
  last_rowid t = Z.of_nat (List.length t).
Proof.
  induction t as [|x t' IH] using rev_ind; [reflexivity|].
  rewrite length_app, Nat.add_comm. cbn [List.length Nat.add].
  rewrite seq_S, !map_app. cbn [map]. intros E.
  apply app_inj_tail in E as [E1 E2].
  rewrite last_rowid_snoc, (IH E1), E2. lia.
Qed.

Lemma exec_consecutive_ids (k : call) (t : table) :
  map ID t = map Z.of_nat (seq 1 (List.length t)) ->
  map ID (fst (exec k t)) = map Z.of_nat (seq 1 (List.length (fst (exec k t)))).
Proof.
  intros E. destruct k as [w u|w c]; simpl.
  - destruct (Save_spec w u t); simpl; try exact E.
    rewrite length_app, Nat.add_comm. cbn [List.length Nat.add].
    rewrite seq_S, !map_app, <- E. cbn [map new_row ID]. f_equal. f_equal.
    rewrite (consecutive_ids_last t E). lia.
  - destruct (Get_spec w c t); simpl; exact E.
Qed.

(** X8. Row ids count the mappings: in any table the program can hold, the
    ids are 1, 2, ... in the order the mappings were created, so an id is
    never reused and the newest mapping has the largest id. *)
Theorem row_ids_are_consecutive (t : table) :
  reachable t ->
  map ID t = map Z.of_nat (seq 1 (List.length t)) /\
  last_rowid t = Z.of_nat (List.length t) /\
  NoDup (map ID t).
Proof.
  intros [ks ->].
  assert (G : forall t0, map ID t0 = map Z.of_nat (seq 1 (List.length t0)) ->
                         map ID (run ks t0)
                         = map Z.of_nat (seq 1 (List.length (run ks t0)))).
  { induction ks as [|k ks' IH]; intros t0 E; simpl; [exact E|].
    apply IH, exec_consecutive_ids, E. }
  pose proof (G empty eq_refl) as E.
  split; [exact E|]. split; [apply consecutive_ids_last, E|].
  rewrite E. clear E. generalize (seq_NoDup (List.length (run ks empty)) 1).
  induction (seq 1 (List.length (run ks empty))) as [|n l IH]; intros ND; simpl;
    [constructor|].
  inversion ND as [|? ? Hn ND']; subst. constructor; [|apply IH; exact ND'].
  intros Hin. apply in_map_iff in Hin as (m & Em & Hm).
  apply Nat2Z.inj in Em. subst. contradiction.
Qed.

Lemma row_ids_are_consecutive_witness :
  reachable (table_a ++ [mkURL 2 url_b "111111"])%list /\
  map ID (table_a ++ [mkURL 2 url_b "111111"])%list = [1%Z; 2%Z].
Proof.
  assert (R : reachable (table_a ++ [mkURL 2 url_b "111111"])%list)
    by (exists [Shorten (calm 0) url_a; Shorten (calm 1) url_b]; reflexivity).
  split; [exact R|].
  exact (proj1 (row_ids_are_consecutive _ R)).
Defined.

(* ------------------------------------------------------------------ *)
(** ** More on the mapping service *)

Lemma ShortenURL_success {P W : Type} `{URLPersistence P W}
  (w : W) (u : string) (p p1 : P) (c : string) :
  core.ShortenURL w u p = (p1, (c, None)) <-> types.Save w u p = (p1, (c, None)).
Proof.
  unfold core.ShortenURL. destruct (types.Save w u p) as [p2 [s [e|]]].
  - split; discriminate.
  - reflexivity.
Qed.

Lemma GetURL_success {P W : Type} `{URLPersistence P W}
  (w : W) (c : string) (p p1 : P) (u : string) :
  core.GetURL w c p = (p1, (u, None)) <-> types.Get w c p = (p1, (u, None)).
Proof.
  unfold core.GetURL. destruct (types.Get w c p) as [p2 [s [e|]]].
  - split; discriminate.
  - reflexivity.
Qed.

(** X9. The mapping service adds nothing to a success and no state of its
    own: over any implementation of [URLPersistence], [ShortenURL] and
    [GetURL] leave the store exactly as [Save] and [Get] leave it, succeed
    exactly when they succeed, with the same result, and return the empty
    string beside every error. *)
Theorem Core_is_transparent :
  forall (P W : Type) (H : URLPersistence P W) (w : W) (s : string) (p : P),
    (fst (core.ShortenURL w s p) = fst (types.Save w s p) /\
     (forall p1 c, core.ShortenURL w s p = (p1, (c, None)) <->
                   types.Save w s p = (p1, (c, None))) /\
     (forall p1 c e, core.ShortenURL w s p = (p1, (c, Some e)) -> c = "")) /\
    (fst (core.GetURL w s p) = fst (types.Get w s p) /\
     (forall p1 u, core.GetURL w s p = (p1, (u, None)) <->
                   types.Get w s p = (p1, (u, None))) /\
     (forall p1 u e, core.GetURL w s p = (p1, (u, Some e)) -> u = "")).
Proof.
  intros P W H w s p. split; (split; [|split]).
  - unfold core.ShortenURL. destruct (types.Save w s p) as [p2 [x [e|]]]; reflexivity.
  - intros p1 c. apply ShortenURL_success.
  - intros p1 c e. unfold core.ShortenURL.
    destruct (types.Save w s p) as [p2 [x [e'|]]]; intros [= _ <- _]; reflexivity.
  - unfold core.GetURL. destruct (types.Get w s p) as [p2 [x [e|]]]; reflexivity.
  - intros p1 u. apply GetURL_success.
  - intros p1 u e. unfold core.GetURL.
    destruct (types.Get w s p) as [p2 [x [e'|]]]; intros [= _ <- _]; reflexivity.
Qed.

(** X10. Round trip through the mapping service over the SQLite store: a
    code [ShortenURL] returned for [u] is resolved by [GetURL], the lookup
    being answered, to [u], also after any further calls. *)
Theorem GetURL_after_ShortenURL
  (w1 w2 : world) (u : string) (ks : list call) (t t1 : table) (c : string) :
  reachable t ->
  core.ShortenURL w1 u t = (t1, (c, None)) ->
  query_fault w2 = None ->
  core.GetURL w2 c (run ks t1) = (run ks t1, (u, None)).
Proof.
  intros R E Q. apply ShortenURL_success in E. apply GetURL_success.
  cbn [types.Save types.Get SQLitePersistence] in *.
  destruct (Save_success_row _ _ _ _ _ E) as (r & F & O & S & _).
  assert (R1 : reachable (run ks t1)).
  { apply reachable_run. eapply Save_reachable; eauto. }
  destruct (reachable_unique _ R1) as [_ US].
  rewrite <- O, <- S. apply Get_found_row; [exact Q|].
  apply find_col_unique; [exact US|].
  destruct (run_extends ks t1) as [a ->]. apply in_or_app. left.
  apply (find_col_some Original _ _ _ F).
Qed.

Lemma GetURL_after_ShortenURL_witness :
  reachable empty /\
  core.ShortenURL (calm 0) url_a empty = (table_a, ("000000", None)) /\
  core.GetURL (calm 0) "000000" (run [Shorten (calm 1) url_b] table_a)
    = (run [Shorten (calm 1) url_b] table_a, (url_a, None)).
Proof.
  assert (R0 : reachable empty) by (exists []; reflexivity).
  split; [exact R0|]. split; [reflexivity|].
  exact (GetURL_after_ShortenURL (calm 0) (calm 0) url_a [Shorten (calm 1) url_b]
           empty table_a "000000" R0 eq_refl eq_refl).
Defined.

(* ------------------------------------------------------------------ *)
(** ** Opening the store again *)

(** X11. Mappings survive a restart: when [NewSQLitePersistence] succeeds on
    a data source that holds the table an earlier run left, neither step
    failed, the store it returns holds that table, and a code the earlier run
    returned for [u] still resolves to [u] and is still the code of [u]. *)
Theorem mappings_survive_restart
  (open_fault create_fault : fault) (w1 w2 : world) (u : string)
  (t t1 p : table) (c : string) :
  reachable t ->
  Save w1 u t = (t1, (c, None)) ->
  NewSQLitePersistence open_fault create_fault (Some t1) = (Some p, None) ->
  query_fault w2 = None ->
  open_fault = None /\ create_fault = None /\ p = t1 /\
  Get w2 c p = (p, (u, None)) /\
  Save w2 u p = (p, (c, None)).
Proof.
  intros R E N Q. unfold NewSQLitePersistence in N.
  destruct open_fault; [discriminate N|]. destruct create_fault; [discriminate N|].
  injection N as <-. split; [reflexivity|]. split; [reflexivity|]. split; [reflexivity|].
  destruct (Save_success_row _ _ _ _ _ E) as (r & F & O & S & _).
  assert (R1 : reachable t1) by (eapply Save_reachable; eauto).
  destruct (reachable_unique _ R1) as [_ US]. split.
  - rewrite <- O, <- S. apply Get_found_row; [exact Q|].
    apply find_col_unique; [exact US|]. apply (find_col_some Original _ _ _ F).
  - rewrite <- S. apply Save_found; assumption.
Qed.

Lemma mappings_survive_restart_witness :
  reachable empty /\
  Save (calm 0) url_a empty = (table_a, ("000000", None)) /\
  NewSQLitePersistence None None (Some table_a) = (Some table_a, None) /\
  Get (calm 3) "000000" table_a = (table_a, (url_a, None)).
Proof.
  assert (R0 : reachable empty) by (exists []; reflexivity).
  split; [exact R0|]. split; [reflexivity|]. split; [reflexivity|].
  exact (proj1 (proj2 (proj2 (proj2
           (mappings_survive_restart None None (calm 0) (calm 3) url_a
              empty table_a table_a "000000" R0 eq_refl eq_refl eq_refl))))).
Defined.

(* ------------------------------------------------------------------ *)
(** ** The handlers over the SQLite store *)

(** X12. What [handleRedirect] answers.  It never changes the table; it
    panics exactly on the empty path; it redirects, with status 301, exactly
    when the lookup is answered and the path without its first byte is the
    code of a stored mapping, and then to that mapping's original; and every
    other case, a storage failure included, is answered "not found". *)
Theorem handleRedirect_outcome (w : world) (path : string) (t : table) :
  unique t ->
  fst (server.handleRedirect w path t) = t /\
  (snd (server.handleRedirect w path t) = server.panic <-> path = "") /\
  (forall u code,
      snd (server.handleRedirect w path t) = server.http_Redirect u code <->
      code = 301 /\ query_fault w = None /\
      exists a r, path = String a (Short r) /\ In r t /\ Original r = u) /\
  (path <> "" ->
   (forall u code,
       snd (server.handleRedirect w path t) <> server.http_Redirect u code) ->
   snd (server.handleRedirect w path t) = server.http_NotFound).
Proof.
  intros [_ US]. unfold server.handleRedirect.
  destruct path as [|a c]; cbn [server.slice_from_1].
  - split; [reflexivity|]. split; [split; reflexivity|]. split.
    + intros u code. split; [discriminate|]. intros (_ & _ & a & r & D & _).
      discriminate D.
    + intros N. contradiction.
  - unfold core.GetURL. cbn [types.Get SQLitePersistence].
    destruct (Get_spec w c t) as [msg Q|r Q F|Q F]; cbn [fst snd].
    + split; [reflexivity|]. split; [split; discriminate|]. split.
      * intros u code. split; [discriminate|]. intros (_ & D & _). congruence.
      * reflexivity.
    + destruct (find_col_some Short _ _ _ F) as [Hin S].
      split; [reflexivity|]. split; [split; discriminate|]. split.
      * intros u code. split.
        { intros [= <- <-]. split; [reflexivity|]. split; [exact Q|].
          exists a, r. rewrite S. repeat split. exact Hin. }
        { intros (-> & _ & a' & r' & [= _ E] & Hin' & <-).
          assert (r' = r).
          { apply (col_injective Short t); try assumption. congruence. }
          subst r'. reflexivity. }
      * intros _ N. exfalso. exact (N _ _ eq_refl).
    + split; [reflexivity|]. split; [split; discriminate|]. split.
      * intros u code. split; [discriminate|].
        intros (_ & _ & a' & r' & [= _ E] & Hin' & _).
        rewrite find_col_none in F. exfalso. apply (F r' Hin'). congruence.
      * reflexivity.
Qed.

Lemma handleRedirect_outcome_witness :
  unique table_a /\
  server.handleRedirect (calm 0) "/000000" table_a
    = (table_a, server.http_Redirect url_a 301) /\
  snd (server.handleRedirect broken_query "/000000" table_a) = server.http_NotFound.
Proof.
  assert (U : unique table_a).
  { split; simpl; (constructor; [intros [] | constructor]). }
  pose proof (handleRedirect_outcome broken_query "/000000" table_a U) as (_ & _ & _ & N).
  split; [exact U|]. split; [reflexivity|].
  apply N; [discriminate|]. intros u code. discriminate.
Defined.

Lemma Shorten_failure_atomic_aux
  (w : world) (u : string) (t t1 : table) (s : string) (e : error) :
  Save w u t = (t1, (s, Some e)) -> t1 = t /\ s = "".
Proof.
  intros E. pose proof (Save_spec w u t) as S. rewrite E in S.
  inversion S; subst; split; reflexivity.
Qed.

(** X13. What [handleShorten] answers.  A body that does not decode is
    answered 400 and a failure of the store 500, both with the table left as
    it was; otherwise the answer is the JSON value whose [short_url] is
    [http://], the request's host, [/] and the code [Save] returned for the
    decoded URL, whatever that URL is. *)
Theorem handleShorten_outcome
  (w : world) (decoded : option server.shortenRequest) (host : string) (t : table) :
  match server.handleShorten w decoded host t with
  | (t1, server.json_Encode res) =>
      exists req c,
        decoded = Some req /\ Save w (server.URL req) t = (t1, (c, None)) /\
        server.ShortURL res = (("http://" ++ host) ++ "/") ++ c
  | (t1, server.http_Error msg code) =>
      t1 = t /\
      ((decoded = None /\ msg = "Invalid request body" /\ code = 400) \/
       (exists req e,
           decoded = Some req /\ snd (snd (Save w (server.URL req) t)) = Some e /\
           msg = "Internal server error" /\ code = 500))
  | (_, _) => False
  end.
Proof.
  unfold server.handleShorten. destruct decoded as [req|].
  - unfold core.ShortenURL. cbn [types.Save SQLitePersistence].
    destruct (Save w (server.URL req) t) as [t1 [c [e|]]] eqn:E.
    + split.
      * exact (proj1 (Shorten_failure_atomic_aux _ _ _ _ _ _ E)).
      * right. exists req, e. rewrite E. repeat split.
    + exists req, c. split; [reflexivity|]. split; [exact E | reflexivity].
  - split; [reflexivity|]. left. repeat split.
Qed.

(** X14. From one request to the next: when [handleShorten] answers with a
    short URL for the decoded URL [u], that short URL is [http://], the host,
    [/] and six alphanumeric symbols; a later request for a path made of any
    one byte and those six symbols is redirected, with status 301, to [u];
    and shortening [u] again answers the same code and adds nothing. *)
Theorem redirect_after_shorten
  (w1 w2 : world) (req : server.shortenRequest) (host host' : string) (a : ascii)
  (t t1 : table) (res : server.shortenResponse) :
  reachable t ->
  server.handleShorten w1 (Some req) host t = (t1, server.json_Encode res) ->
  query_fault w2 = None ->
  exists c,
    server.ShortURL res = (("http://" ++ host) ++ "/") ++ c /\
    code_shape c = true /\
    server.handleRedirect w2 (String a c) t1
      = (t1, server.http_Redirect (server.URL req) 301) /\
    server.handleShorten w2 (Some req) host' t1
      = (t1, server.json_Encode
               (server.mkShortenResponse ((("http://" ++ host') ++ "/") ++ c))).
Proof.
  intros R E Q.
  unfold server.handleShorten, core.ShortenURL in E.
  cbn [types.Save SQLitePersistence] in E.
  destruct (Save w1 (server.URL req) t) as [t1' [c [e|]]] eqn:S; [discriminate E|].
  injection E as <- <-. exists c.
  destruct (Save_success_row _ _ _ _ _ S) as (r & F & O & SC & _).
  assert (R1 : reachable t1') by (eapply Save_reachable; eauto).
  destruct (reachable_unique _ R1) as [_ US].
  pose proof (proj1 (find_col_some Original _ _ _ F)) as Hin.
  split; [reflexivity|]. split; [|split].
  - pose proof (reachable_codes _ R1) as A. rewrite Forall_forall in A.
    rewrite <- SC. apply A, Hin.
  - unfold server.handleRedirect, core.GetURL.
    cbn [server.slice_from_1 types.Get SQLitePersistence].
    rewrite <- SC, (Get_found_row w2 (Short r) t1' r Q
                      (find_col_unique Short t1' r US Hin)), O. reflexivity.
  - unfold server.handleShorten, core.ShortenURL. cbn [types.Save SQLitePersistence].
    rewrite (Save_found w2 _ t1' r Q F), SC. reflexivity.
Qed.

Lemma redirect_after_shorten_witness :
  reachable empty /\
  server.handleShorten (calm 0) (Some (server.mkShortenRequest url_a)) "sho.rt" empty
    = (table_a, server.json_Encode (server.mkShortenResponse "http://sho.rt/000000")) /\
  exists c,
    "http://sho.rt/000000" = (("http://" ++ "sho.rt") ++ "/") ++ c /\
    code_shape c = true /\
    server.handleRedirect (calm 0) (String "/" c) table_a
      = (table_a, server.http_Redirect url_a 301) /\
    server.handleShorten (calm 0) (Some (server.mkShortenRequest url_a)) "sho.rt" table_a
      = (table_a, server.json_Encode
                    (server.mkShortenResponse ((("http://" ++ "sho.rt") ++ "/") ++ c))).
Proof.
  assert (R0 : reachable empty) by (exists []; reflexivity).
  split; [exact R0|]. split; [reflexivity|].
  exact (redirect_after_shorten (calm 0) (calm 0) (server.mkShortenRequest url_a)
           "sho.rt" "sho.rt" "/"%char empty table_a
           (server.mkShortenResponse "http://sho.rt/000000") R0 eq_refl eq_refl).
Defined.

(* ------------------------------------------------------------------ *)
(** ** The life of a mapping *)

(** X15. What a successful [Save] does to the table: either the original was
    stored and the table is untouched, the code being the one stored with it;
    or neither the original nor the returned code was stored and exactly one
    row is appended, holding the original, the code and the next id. *)
Theorem Save_success_shape (w : world) (u : string) (t t1 : table) (c : string) :
  Save w u t = (t1, (c, None)) ->
  (t1 = t /\ exists r, In r t /\ Original r = u /\ Short r = c) \/
  (t1 = (t ++ [mkURL (last_rowid t + 1) u c])%list /\
   c = generateShortCode (rand_raw w) /\
   (forall r, In r t -> Original r <> u) /\
   (forall r, In r t -> Short r <> c)).
Proof.
  intros E. pose proof (Save_spec w u t) as S. rewrite E in S.
  inversion S as [msg Q|r Q F|e Q F I|Q F ES]; subst.
  - left. split; [reflexivity|]. exists r.
    destruct (find_col_some Original _ _ _ F) as [Hin O]. repeat split; assumption.
  - right. split; [reflexivity|]. split; [reflexivity|]. split.
    + apply find_col_none. exact F.
    + intros r Hin D. rewrite existsb_col_false in ES. apply ES.
      rewrite <- D. apply in_map. exact Hin.
Qed.

Lemma Save_success_shape_witness :
  Save (calm 1) url_b table_a
    = ((table_a ++ [mkURL 2 url_b "111111"])%list, ("111111", None)) /\
  ((table_a ++ [mkURL 2 url_b "111111"])%list = table_a /\
   (exists r, In r table_a /\ Original r = url_b /\ Short r = "111111") \/
   (table_a ++ [mkURL 2 url_b "111111"])%list
     = (table_a ++ [mkURL (last_rowid table_a + 1) url_b "111111"])%list /\
   "111111" = generateShortCode (rand_raw (calm 1)) /\
   (forall r, In r table_a -> Original r <> url_b) /\
   (forall r, In r table_a -> Short r <> "111111")).
Proof.
  split; [reflexivity|].
  exact (Save_success_shape (calm 1) url_b table_a _ "111111" eq_refl).
Defined.

(** X16. Re-submission never reaches the generator or the insert: for an
    original that is stored, the outcome of [Save] depends on the world only
    through the lookup, so it can neither collide nor fail in the insert. *)
Theorem Save_stored_ignores_generator (w w' : world) (u : string) (t : table) :
  (exists r, In r t /\ Original r = u) ->
  query_fault w = query_fault w' ->
  Save w u t = Save w' u t /\
  (forall e, snd (snd (Save w u t)) = Some e -> is_duplicate_key e = false).
Proof.
  intros (r & Hin & O) Q.
  destruct (find (fun x => String.eqb (Original x) u) t) as [r0|] eqn:F.
  - unfold Save, select_short. rewrite <- Q, F.
    destruct (query_fault w); simpl; split; try reflexivity.
    + intros e [= <-]. reflexivity.
    + discriminate.
  - rewrite find_col_none in F. exfalso. exact (F r Hin O).
Qed.

Lemma Save_stored_ignores_generator_witness :
  (exists r, In r table_a /\ Original r = url_a) /\
  Save (calm 0) url_a table_a = Save broken_exec url_a table_a.
Proof.
  assert (S : exists r, In r table_a /\ Original r = url_a)
    by (exists (mkURL 1 url_a "000000"); split; [left; reflexivity | reflexivity]).
  split; [exact S|].
  exact (proj1 (Save_stored_ignores_generator (calm 0) broken_exec url_a table_a
                  S eq_refl)).
Defined.

(** X17. Codes are permanent: once a code resolves to [u], it resolves to [u]
    after every further history of calls, and [u] keeps that code, whenever
    the lookup is answered. *)
Theorem resolution_is_permanent
  (w1 w2 : world) (ks : list call) (c u : string) (t : table) :
  reachable t ->
  Get w1 c t = (t, (u, None)) ->
  query_fault w2 = None ->
  Get w2 c (run ks t) = (run ks t, (u, None)) /\
  Save w2 u (run ks t) = (run ks t, (c, None)).
Proof.
  intros R E Q. pose proof (Get_spec w1 c t) as S. rewrite E in S.
  inversion S as [msg Q1|r Q1 F|Q1 F]; subst.
  destruct (find_col_some Short _ _ _ F) as [Hin SC]. subst c.
  destruct (reachable_unique _ (reachable_run ks t R)) as [UO US].
  assert (Hin' : In r (run ks t)).
  { destruct (run_extends ks t) as [a ->]. apply in_or_app. left. exact Hin. }
  split.
  - apply Get_found_row; [exact Q|]. apply find_col_unique; assumption.
  - apply Save_found; [exact Q|]. apply find_col_unique; assumption.
Qed.

Lemma resolution_is_permanent_witness :
  reachable table_a /\
  Get (calm 0) "000000" table_a = (table_a, (url_a, None)) /\
  Get (calm 0) "000000" (run [Shorten (calm 1) url_b; Shorten (calm 0) url_b] table_a)
    = (run [Shorten (calm 1) url_b; Shorten (calm 0) url_b] table_a, (url_a, None)).
Proof.
  assert (R1 : reachable table_a) by (exists [Shorten (calm 0) url_a]; reflexivity).
  split; [exact R1|]. split; [reflexivity|].
  exact (proj1 (resolution_is_permanent (calm 0) (calm 0)
                  [Shorten (calm 1) url_b; Shorten (calm 0) url_b]
                  "000000" url_a table_a R1 eq_refl eq_refl)).
Defined.
